(** * Quaternion DMP (quaternion_dmp.py): a shallow embedding over the reals

    The Python class [QuaternionDMP] works on numpy float arrays.  Here every
    float is an exact real number ([R]); the numerical tolerances the
    documentation speaks of are therefore absent, and every identity below is
    an exact one.  Arrays are kept the way the code indexes them: a quaternion
    is a record of its four array slots [q[0] .. q[3]], a tangent vector a
    record of its three slots, and a trajectory a list of rows. *)

From Stdlib Require Import Reals Psatz Lra List Arith ZArith.
Import ListNotations.
Open Scope R_scope.

(** ** Vectors and quaternions as numpy arrays *)

(** A 3-element float array [r[0], r[1], r[2]]. *)
Record vec3 := V3 { x0 : R; x1 : R; x2 : R }.

(** A 4-element float array [q[0], q[1], q[2], q[3]]; which slot holds the
    scalar part is a matter of convention, not of the type. *)
Record quat := Q4 { e0 : R; e1 : R; e2 : R; e3 : R }.

Definition vzero : vec3 := V3 0 0 0.

(** [q[1:]] *)
Definition qvec (q : quat) : vec3 := V3 (e1 q) (e2 q) (e3 q).

(** [a * v] for a scalar [a] *)
Definition vscale (a : R) (v : vec3) : vec3 := V3 (a * x0 v) (a * x1 v) (a * x2 v).

(** [v / a] for a scalar [a] *)
Definition vdiv (v : vec3) (a : R) : vec3 := V3 (x0 v / a) (x1 v / a) (x2 v / a).

Definition vadd (u v : vec3) : vec3 := V3 (x0 u + x0 v) (x1 u + x1 v) (x2 u + x2 v).

Definition vsub (u v : vec3) : vec3 := V3 (x0 u - x0 v) (x1 u - x1 v) (x2 u - x2 v).

(** [np.dot] on 3-vectors *)
Definition vdot (u v : vec3) : R := x0 u * x0 v + x1 u * x1 v + x2 u * x2 v.

(** [np.cross] on 3-vectors *)
Definition vcross (u v : vec3) : vec3 :=
  V3 (x1 u * x2 v - x2 u * x1 v)
     (x2 u * x0 v - x0 u * x2 v)
     (x0 u * x1 v - x1 u * x0 v).

(** [np.linalg.norm] of a 3-vector *)
Definition vnorm (v : vec3) : R := sqrt (x0 v * x0 v + x1 v * x1 v + x2 v * x2 v).

(** [np.linalg.norm] of a 4-vector *)
Definition qnorm (q : quat) : R :=
  sqrt (e0 q * e0 q + e1 q * e1 q + e2 q * e2 q + e3 q * e3 q).

(** [np.finfo(float).eps] = 2^-52 *)
Definition eps : R := / 2 ^ 52.

(** [np.arctan2(y, x)], the quadrant-aware arc tangent (signed zeros aside). *)
Definition arctan2 (y x : R) : R :=
  if Rlt_dec 0 x then atan (y / x)
  else if Rlt_dec x 0 then
    (if Rle_dec 0 y then atan (y / x) + PI else atan (y / x) - PI)
  else if Rlt_dec 0 y then PI / 2
  else if Rlt_dec y 0 then - (PI / 2)
  else 0.

(** ** Quaternion algebra (methods of [QuaternionDMP]) *)

(** [q * np.array([1.0,-1.0,-1.0,-1.0])] *)
Definition quaternion_conjugate (q : quat) : quat :=
  Q4 (e0 q * 1) (e1 q * -1) (e2 q * -1) (e3 q * -1).

(** [q12[0] = q1[0]*q2[0] - np.dot(q1[1:],q2[1:])];
    [q12[1:] = q1[0]*q2[1:] + q2[0]*q1[1:] + np.cross(q1[1:],q2[1:])] *)
Definition quaternion_product (q1 q2 : quat) : quat :=
  let s := e0 q1 * e0 q2 - vdot (qvec q1) (qvec q2) in
  let v := vadd (vadd (vscale (e0 q1) (qvec q2)) (vscale (e0 q2) (qvec q1)))
                (vcross (qvec q1) (qvec q2)) in
  Q4 s (x0 v) (x1 v) (x2 v).

Definition quaternion_error (q1 q2 : quat) : quat :=
  quaternion_product q1 (quaternion_conjugate q2).

Definition exponential_map (r : vec3) : quat :=
  let theta := vnorm r in
  if Req_EM_T theta 0 then Q4 1 0 0 0
  else
    let n := vdiv r (vnorm r) in
    let v := vscale (sin (theta / 2)) n in
    Q4 (cos (theta / 2)) (x0 v) (x1 v) (x2 v).

Definition logarithmic_map (q : quat) : vec3 :=
  if Rlt_dec (vnorm (qvec q)) eps then vzero
  else
    let n := vdiv (qvec q) (vnorm (qvec q)) in
    let theta := 2 * arctan2 (vnorm (qvec q)) (e0 q) in
    vscale theta n.

(** ** Array helpers *)

(** numpy item assignment [a[i] = x] (every use below is in range). *)
Fixpoint set_nth {A} (l : list A) (i : nat) (x : A) : list A :=
  match l, i with
  | [], _ => []
  | _ :: t, O => x :: t
  | y :: t, S k => y :: set_nth t k x
  end.

(** [np.linspace(a, b, num)] *)
Definition linspace (a b : R) (num : nat) : list R :=
  match num with
  | O => []
  | 1%nat => [a]
  | _ => map (fun i => a + INR i * ((b - a) / INR (num - 1))) (seq 0 num)
  end.

(** [np.sum] *)
Definition rsum (l : list R) : R := fold_right Rplus 0 l.

(** elementwise combination of two equally long arrays *)
Fixpoint zip_with {A B C} (f : A -> B -> C) (l1 : list A) (l2 : list B) : list C :=
  match l1, l2 with
  | a :: t1, b :: t2 => f a b :: zip_with f t1 t2
  | _, _ => []
  end.

(** column [d] of an [n x 3] array *)
Definition col (d : nat) (v : vec3) : R :=
  match d with O => x0 v | 1%nat => x1 v | _ => x2 v end.

(** [np.gradient(f)] with unit spacing and first-order edges (callers pass at
    least two samples). *)
Definition np_gradient (f : list R) : list R :=
  let n := length f in
  let at_ i := nth i f 0 in
  map (fun i =>
         if Nat.eqb i 0 then at_ 1%nat - at_ 0%nat
         else if Nat.eqb i (n - 1) then at_ (n - 1)%nat - at_ (n - 2)%nat
         else (at_ (i + 1)%nat - at_ (i - 1)%nat) / 2)
      (seq 0 n).

(** ** Differentiation of a quaternion trajectory *)

(** [quaternion_diff]: [None] stands for the [IndexError] raised by [q[1,:]]
    on a trajectory with fewer than two rows. *)
Definition quaternion_diff (dt : R) (q : list quat) : option (list vec3) :=
  let N := length q in
  let row n := nth n q (Q4 0 0 0 0) in
  if Nat.ltb N 2 then None
  else
    let d := repeat vzero N in
    let d := set_nth d 0
               (vdiv (logarithmic_map (quaternion_error (row 1%nat) (row 0%nat))) dt) in
    let d := fold_left
               (fun d n => set_nth d n
                  (vdiv (logarithmic_map (quaternion_error (row (n + 1)%nat) (row (n - 1)%nat)))
                        (2 * dt)))
               (seq 1 (N - 2)) d in
    Some (set_nth d (N - 1)
            (vdiv (logarithmic_map (quaternion_error (row (N - 1)%nat) (row (N - 2)%nat))) dt)).

(** ** Model state *)

(** Exceptions.  The first three are the error kinds the documentation
    names; no [raise] in the source produces them.  The others are the
    Python and numpy exceptions the code actually runs into. *)
Inductive dmp_error :=
  | InsufficientDemonstration
  | UntrainedModelError
  | InvalidConfig
  | AttributeError
  | ValueError
  | IndexError
  | ZeroDivisionError.

Inductive result (A : Type) :=
  | Ok (a : A)
  | Err (e : dmp_error).
Arguments Ok {A} a.
Arguments Err {A} e.

(** The attributes [imitate] creates; it sets them all in one successful
    call, so they are either all present or all absent. *)
Record trained := Trained {
  dq_log : list vec3;
  ddq_log : list vec3;
  q0 : quat;
  dq_log0 : vec3;
  ddq_log0 : vec3;
  qT : quat;
  phase : list R;
  weights : list vec3        (* [self.weights], an [N_bf x 3] array *)
}.

(** The instance [self] of [QuaternionDMP]. *)
Record dmp := Dmp {
  T : R;
  dt : R;
  N : nat;
  alphax : R;
  alphaz : R;
  betaz : R;
  N_bf : nat;
  tau : R;
  c : list R;
  h : list R;
  q : option (list quat);    (* [self.q], assigned before the interpolation runs *)
  model : option trained
}.

(** Python's [int()] on a float: truncation toward zero. *)
Definition py_int (r : R) : Z :=
  if Rle_dec 0 r then Int_part r else (- Int_part (- r))%Z.

(** Centers [np.exp(-alphax * np.linspace(0, T, N_bf))] (lines 20-23). *)
Definition centers (n_bf : nat) (T0 alphax0 : R) : list R :=
  map (fun ci => exp (- alphax0 * ci)) (linspace 0 T0 n_bf).

(** Widths [np.ones(N_bf) * N_bf**1.5 / c / alphax] (line 27). *)
Definition widths (n_bf : nat) (c0 : list R) (alphax0 : R) : list R :=
  map (fun ci => 1 * Rpower (INR n_bf) 1.5 / ci / alphax0) c0.

(** [__init__(N_bf, dt)]; [T/dt] raises [ZeroDivisionError] when [dt = 0]. *)
Definition init (N_bf0 : nat) (dt0 : R) : result dmp :=
  let T0 := 1 in
  let alphax0 := 1 in
  if Req_EM_T dt0 0 then Err ZeroDivisionError
  else
    let c0 := centers N_bf0 T0 alphax0 in
    let h0 := widths N_bf0 c0 alphax0 in
    Ok {| T := T0; dt := dt0; N := Z.to_nat (py_int (T0 / dt0));
          alphax := alphax0; alphaz := 12; betaz := 3; N_bf := N_bf0; tau := 1;
          c := c0; h := h0; q := None; model := None |}.

(** ** Basis functions and the forcing term *)

(** [RBF()]: [np.exp(-self.h*(self.phase[:,np.newaxis]-self.c)**2)], rows
    indexed by the phase samples stored by [imitate]. *)
Definition RBF (s : dmp) (m : trained) : list (list R) :=
  map (fun p => zip_with (fun hi ci => exp (- hi * (p - ci) ^ 2)) (h s) (c s)) (phase m).

(** [forcing_function_approx(weights, phase)] *)
Definition forcing_function_approx (s : dmp) (m : trained) (w : list R) (ph : list R)
  : list R :=
  let BF := RBF s m in
  zip_with (fun row p => rsum (zip_with Rmult row w) * p / rsum row) BF ph.

(** [np.dot(M, v)] *)
Definition matvec (M : list (list R)) (v : list R) : list R :=
  map (fun row => rsum (zip_with Rmult row v)) M.

(** Three columns of length [n] as an [n x 3] array. *)
Definition of_columns (a b d : list R) : list vec3 :=
  zip_with (fun x yz => V3 x (fst yz) (snd yz)) a (combine b d).

Definition qzero : quat := Q4 0 0 0 0.

(** [tau * v * dt] for a vector [v] *)
Definition scale_step (a : R) (v : vec3) (b : R) : vec3 :=
  V3 (a * x0 v * b) (a * x1 v * b) (a * x2 v * b).

Definition set_q (s : dmp) (v : option (list quat)) : dmp :=
  {| T := T s; dt := dt s; N := N s; alphax := alphax s; alphaz := alphaz s;
     betaz := betaz s; N_bf := N_bf s; tau := tau s; c := c s; h := h s;
     q := v; model := model s |}.

Definition set_model (s : dmp) (m : option trained) : dmp :=
  {| T := T s; dt := dt s; N := N s; alphax := alphax s; alphaz := alphaz s;
     betaz := betaz s; N_bf := N_bf s; tau := tau s; c := c s; h := h s;
     q := q s; model := m |}.

(** The checks [R.from_quat(...)] and [Slerp(t, rotations)] of scipy make
    before interpolating: a zero-norm row, or fewer than two rotations, is a
    [ValueError].  (The times, [np.linspace(0, T, n)] with [T = 1], are
    strictly increasing, so scipy's check on them always passes.) *)
Definition Slerp_check (rots : list quat) : option dmp_error :=
  if existsb (fun r => if Req_EM_T (qnorm r) 0 then true else false) rots
  then Some ValueError
  else if Nat.ltb (length rots) 2 then Some ValueError
  else None.

Section Training.

(** The two numerical collaborators: the interpolation
    [Slerp(t, R.from_quat(demo))(times).as_quat()] once [Slerp_check] passed,
    and [np.linalg.pinv]. *)
Variable slerp_eval : list R -> list quat -> list R -> list quat.
Variable pinv : list (list R) -> list (list R).

(** [fit_dmp(forcing_target)]; the basis is evaluated at [self.phase]. *)
Definition fit_dmp (s : dmp) (m : trained) (forcing_target : list vec3) : list vec3 :=
  let BF := RBF s m in
  let X := zip_with (fun row p => map (fun b => b * p / rsum row) row) BF (phase m) in
  let w d := matvec (pinv X) (map (col d) forcing_target) in
  of_columns (w 0%nat) (w 1%nat) (w 2%nat).

(** [imitate(demo_trajectory)]: returns the updated instance and either the
    resampled trajectory or the exception raised. *)
Definition imitate (s : dmp) (demo : list quat) : dmp * result (list quat) :=
  let t := linspace 0 (T s) (length demo) in
  let s1 := set_q s (Some (repeat qzero (N s))) in
  match Slerp_check demo with
  | Some e => (s1, Err e)
  | None =>
    let qs := slerp_eval t demo (linspace 0 (T s) (N s)) in
    let s2 := set_q s (Some qs) in
    match quaternion_diff (dt s) qs with
    | None => (s2, Err IndexError)
    | Some dq =>
      let ddcol d := map (fun g => g / dt s) (np_gradient (map (col d) dq)) in
      let ddq := of_columns (ddcol 0%nat) (ddcol 1%nat) (ddcol 2%nat) in
      let q0' := nth 0 qs qzero in
      let dq0 := nth 0 dq vzero in
      let ddq0 := nth 0 ddq vzero in
      let qT' := last qs qzero in
      let ph := map (fun x => exp (- alphax s * x)) (linspace 0 (T s) (N s)) in
      let forcing_target :=
        map (fun n =>
               vsub (vscale (tau s) (nth n ddq vzero))
                    (vscale (alphaz s)
                       (vsub (vscale (betaz s)
                                (logarithmic_map (quaternion_error qT' (nth n qs qzero))))
                             (nth n dq vzero))))
            (seq 0 (N s)) in
      let m0 := Trained dq ddq q0' dq0 ddq0 qT' ph [] in
      let m := Trained dq ddq q0' dq0 ddq0 qT' ph (fit_dmp s m0 forcing_target) in
      (set_model s2 (Some m), Ok qs)
    end
  end.

End Training.

(** ** Rollout *)

(** Lines 134-138: the phase at the rescaled schedule and the forcing term,
    one [forcing_function_approx] call per column. *)
Definition rollout_forcing_term (s : dmp) (m : trained) (tau : R) : list vec3 :=
  let phase := map (fun x => exp (- alphax s * tau * x)) (linspace 0 (T s) (N s)) in
  let f d := forcing_function_approx s m (map (col d) (weights m)) phase in
  of_columns (f 0%nat) (f 1%nat) (f 2%nat).

(** One iteration [n] of the loop of lines 140-146. *)
Definition rollout_step (s : dmp) (m : trained) (tau : R) (forcing_term : list vec3)
  (st : list quat * list vec3 * list vec3) (n : nat) : list quat * list vec3 * list vec3 :=
  let '(qr, dqr, ddqr) := st in
  let ddqr := set_nth ddqr n
    (vadd (vscale (alphaz s)
             (vsub (vscale (betaz s)
                      (logarithmic_map (quaternion_error (qT m) (nth (n - 1) qr qzero))))
                   (nth (n - 1) dqr vzero)))
          (nth n forcing_term vzero)) in
  let dqr := set_nth dqr n
    (vadd (nth (n - 1) dqr vzero) (scale_step tau (nth (n - 1) ddqr vzero) (dt s))) in
  let qr := set_nth qr n
    (quaternion_product (exponential_map (scale_step tau (nth (n - 1) dqr vzero) (dt s)))
                        (nth (n - 1) qr qzero)) in
  (qr, dqr, ddqr).

(** [rollout(tau)]: reading [self.q0] on an instance [imitate] never trained
    raises [AttributeError].  The instance is returned as it came in: the
    method assigns no attribute. *)
Definition rollout (tau : R) (s : dmp)
  : dmp * result (list quat * list vec3 * list vec3) :=
  match model s with
  | None => (s, Err AttributeError)
  | Some m =>
    let qr := set_nth (repeat qzero (N s)) 0 (q0 m) in
    let dqr := set_nth (repeat vzero (N s)) 0 (dq_log0 m) in
    let ddqr := set_nth (repeat vzero (N s)) 0 (ddq_log0 m) in
    let forcing_term := rollout_forcing_term s m tau in
    (s, Ok (fold_left (rollout_step s m tau forcing_term) (seq 1 (N s - 1)) (qr, dqr, ddqr)))
  end.

(** The forcing approximation as section 4.4 of the documentation words it:
    the basis [BF] evaluated at the phase schedule that is passed in. *)
Definition RBF_at (s : dmp) (ph : list R) : list (list R) :=
  map (fun p => zip_with (fun hi ci => exp (- hi * (p - ci) ^ 2)) (h s) (c s)) ph.

Definition forcing_function_spec (s : dmp) (w : list R) (ph : list R) : list R :=
  zip_with (fun row p => rsum (zip_with Rmult row w) * p / rsum row) (RBF_at s ph) ph.

(** ** Concrete instances and shorthands used below *)

(** A freshly constructed instance with the default configuration. *)
Definition fresh : dmp :=
  {| T := 1; dt := / 100; N := 100; alphax := 1; alphaz := 12; betaz := 3;
     N_bf := 20; tau := 1; c := centers 20 1 1; h := widths 20 (centers 20 1 1) 1;
     q := None; model := None |}.

(** A one-row demonstration: the identity rotation in scipy's order. *)
Definition one_sample_demo : list quat := [Q4 0 0 0 1].

(** Two rows, the identity rotation in scipy's order twice. *)
Definition two_identities : list quat := [Q4 0 0 0 1; Q4 0 0 0 1].

(** The three updates of iteration [n] of the rollout loop, read on the
    final arrays. *)
Definition rollout_eqs (s : dmp) (m : trained) (tau0 : R) (ft : list vec3)
  (qr : list quat) (dqr ddqr : list vec3) (n : nat) : Prop :=
  nth n ddqr vzero =
    vadd (vscale (alphaz s)
            (vsub (vscale (betaz s)
                     (logarithmic_map (quaternion_error (qT m) (nth (n - 1) qr qzero))))
                  (nth (n - 1) dqr vzero)))
         (nth n ft vzero) /\
  nth n dqr vzero = vadd (nth (n - 1) dqr vzero) (scale_step tau0 (nth (n - 1) ddqr vzero) (dt s)) /\
  nth n qr qzero =
    quaternion_product (exponential_map (scale_step tau0 (nth (n - 1) dqr vzero) (dt s)))
                       (nth (n - 1) qr qzero).

(** A trained instance: two samples, one basis function, all at rest at the
    identity. *)
Definition trained_small : dmp :=
  {| T := 1; dt := / 2; N := 2; alphax := 1; alphaz := 12; betaz := 3;
     N_bf := 1; tau := 1; c := centers 1 1 1; h := widths 1 (centers 1 1 1) 1;
     q := Some [Q4 1 0 0 0; Q4 1 0 0 0];
     model := Some (Trained [vzero; vzero] [vzero; vzero] (Q4 1 0 0 0) vzero vzero
                            (Q4 1 0 0 0) [1; exp (-1)] [vzero]) |}.

(** The instance [QuaternionDMP(N_bf=2, dt=0.5)]: two samples, two basis
    functions. *)
Definition config2 : dmp :=
  {| T := 1; dt := / 2; N := 2; alphax := 1; alphaz := 12; betaz := 3;
     N_bf := 2; tau := 1; c := centers 2 1 1; h := widths 2 (centers 2 1 1) 1;
     q := None; model := None |}.

(** * Lemmas *)

Lemma sum_sq_nonneg (a b d : R) : 0 <= a * a + b * b + d * d.
Proof. nra. Qed.

Lemma vnorm_sq (v : vec3) : vnorm v * vnorm v = x0 v * x0 v + x1 v * x1 v + x2 v * x2 v.
Proof. unfold vnorm. apply sqrt_sqrt, sum_sq_nonneg. Qed.

Lemma vnorm_nonneg (v : vec3) : 0 <= vnorm v.
Proof. unfold vnorm. apply sqrt_pos. Qed.

Lemma length_set_nth {A} (l : list A) i x : length (set_nth l i x) = length l.
Proof.
  revert i; induction l as [|y t IH]; intros [|k]; simpl; auto.
Qed.

Lemma nth_set_nth {A} (l : list A) i j x d :
  (i < length l)%nat -> nth j (set_nth l i x) d = if Nat.eqb j i then x else nth j l d.
Proof.
  revert i j; induction l as [|y t IH]; intros i j Hi; simpl in Hi; [lia|].
  destruct i as [|i], j as [|j]; simpl; auto.
  apply IH. lia.
Qed.

Lemma nth_set_nth_ne {A} (l : list A) i j x d :
  j <> i -> nth j (set_nth l i x) d = nth j l d.
Proof.
  revert i j; induction l as [|y t IH]; intros i j Hne; simpl; auto.
  destruct i as [|i], j as [|j]; simpl; auto;
    first [congruence | apply IH; congruence].
Qed.

Lemma nth_set_nth_eq {A} (l : list A) i x d :
  (i < length l)%nat -> nth i (set_nth l i x) d = x.
Proof. intros Hi. rewrite nth_set_nth by exact Hi. rewrite Nat.eqb_refl. reflexivity. Qed.

(** A loop [for n in range(1, k+1): a[n] = g(n)] over an array of length
    greater than [k]. *)
Lemma fold_set_nth {A} (g : nat -> A) k (l : list A) i d :
  (k < length l)%nat ->
  length (fold_left (fun acc n => set_nth acc n (g n)) (seq 1 k) l) = length l /\
  nth i (fold_left (fun acc n => set_nth acc n (g n)) (seq 1 k) l) d =
    if (Nat.leb 1 i && Nat.leb i k)%bool then g i else nth i l d.
Proof.
  revert i; induction k as [|k IH]; intros i Hk.
  - simpl. split; [reflexivity|]. destruct i; reflexivity.
  - rewrite seq_S, fold_left_app. cbn [fold_left]. change (1 + k)%nat with (S k).
    destruct (IH i ltac:(lia)) as [Hl _].
    split; [rewrite length_set_nth; exact Hl|].
    rewrite nth_set_nth by lia.
    destruct (Nat.eqb_spec i (S k)) as [->|Hne].
    + simpl. rewrite ?Nat.eqb_refl, ?Nat.leb_refl. reflexivity.
    + replace (Nat.eqb i (S k)) with false by (symmetry; apply Nat.eqb_neq; exact Hne).
      destruct (IH i ltac:(lia)) as [_ ->].
      destruct (Nat.leb 1 i) eqn:E1; [|reflexivity].
      destruct (Nat.leb i k) eqn:E2, (Nat.leb i (S k)) eqn:E3; auto;
        apply Nat.leb_le in E2 || apply Nat.leb_nle in E2;
        apply Nat.leb_le in E3 || apply Nat.leb_nle in E3; lia.
Qed.

(** * Claims *)

(** C1 (code defect).  [quaternion_conjugate] keeps array slot 0 and negates
    slots 1-3, while scipy's [as_quat] (used by [imitate]) stores [(x, y, z, w)]:
    on a resampled row it keeps [x] and negates [w].  The identity rotation,
    which scipy returns as [(0, 0, 0, 1)], is conjugated to [(0, 0, 0, -1)],
    and its error with itself is [(1, 0, 0, 0)], the half turn about [x] in
    scipy's order. *)
Theorem conjugate_on_scipy_order :
  (forall q, quaternion_conjugate q = Q4 (e0 q) (- e1 q) (- e2 q) (- e3 q)) /\
  quaternion_conjugate (Q4 0 0 0 1) = Q4 0 0 0 (-1) /\
  quaternion_error (Q4 0 0 0 1) (Q4 0 0 0 1) = Q4 1 0 0 0.
Proof.
  split; [|split].
  - intros [a b d e]. unfold quaternion_conjugate; simpl. f_equal; ring.
  - unfold quaternion_conjugate; simpl. f_equal; ring.
  - unfold quaternion_error, quaternion_product, quaternion_conjugate, vdot, vadd,
      vscale, vcross, qvec; simpl. f_equal; ring.
Qed.

(** C7.  For a unit quaternion [q], [quaternion_error q q] is the identity
    [(1, 0, 0, 0)] of the scalar-first algebra. *)
Theorem quaternion_error_self (q : quat) :
  qnorm q = 1 -> quaternion_error q q = Q4 1 0 0 0.
Proof.
  intros Hn. destruct q as [a b d e]. unfold qnorm in Hn; simpl in Hn.
  assert (HS : a * a + b * b + d * d + e * e = 1).
  { rewrite <- (sqrt_sqrt (a * a + b * b + d * d + e * e)) by nra.
    rewrite Hn. ring. }
  unfold quaternion_error, quaternion_product, quaternion_conjugate, vdot, vadd,
    vscale, vcross, qvec; simpl. f_equal; nra.
Qed.

(** C10.  [exponential_map r] has Euclidean norm 1 for every [r], the zero
    vector included. *)
Theorem exponential_map_unit (r : vec3) : qnorm (exponential_map r) = 1.
Proof.
  unfold exponential_map, qnorm.
  destruct (Req_EM_T (vnorm r) 0) as [H0 | H0]; simpl.
  - replace (1 * 1 + 0 * 0 + 0 * 0 + 0 * 0) with 1 by ring. apply sqrt_1.
  - set (th := vnorm r) in *.
    assert (Hs : x0 r * x0 r + x1 r * x1 r + x2 r * x2 r = th * th)
      by (unfold th; rewrite vnorm_sq; reflexivity).
    match goal with |- sqrt ?e = 1 => replace e with 1 end; [apply sqrt_1|].
    transitivity (cos (th / 2) * cos (th / 2) + sin (th / 2) * sin (th / 2) *
                  ((x0 r * x0 r + x1 r * x1 r + x2 r * x2 r) / (th * th))).
    + rewrite Hs. field_simplify; [|assumption]. 
      rewrite <- (sin2_cos2 (th / 2)). unfold Rsqr. field.
    + unfold vdiv, vscale; simpl. field. assumption.
Qed.

(** C4, as the code does it.  On an instance no [imitate] call has trained,
    [rollout] fails with the generic [AttributeError] of the missing [self.q0]
    and leaves the instance as it was. *)
Theorem rollout_untrained (tau0 : R) (s : dmp) :
  model s = None -> rollout tau0 s = (s, Err AttributeError).
Proof. intros H. unfold rollout. rewrite H. reflexivity. Qed.

Lemma rollout_untrained_witness :
  model fresh = None /\ rollout 1 fresh = (fresh, Err AttributeError).
Proof. split; [reflexivity | apply (rollout_untrained 1 fresh); reflexivity]. Defined.

(** C4, as the documentation states it, fails: the untrained default instance
    does not fail with [UntrainedModelError]. *)
Lemma rollout_untrained_not_specific :
  snd (rollout 1 fresh) <> Err UntrainedModelError.
Proof. simpl. discriminate. Qed.

(** C5, as the code does it.  A demonstration of fewer than two rows is
    rejected by scipy's [Slerp] with a [ValueError], whatever the
    interpolation and the solver; the model attributes stay untouched. *)
Theorem imitate_short_demo slerp_eval pinv (s : dmp) (demo : list quat) :
  (length demo < 2)%nat ->
  snd (imitate slerp_eval pinv s demo) = Err ValueError /\
  model (fst (imitate slerp_eval pinv s demo)) = model s.
Proof.
  intros Hlen. unfold imitate, Slerp_check.
  assert (Hb : Nat.ltb (length demo) 2 = true) by (apply Nat.ltb_lt; exact Hlen).
  rewrite Hb.
  destruct (existsb _ demo); split; reflexivity.
Qed.

Lemma imitate_short_demo_witness :
  (length one_sample_demo < 2)%nat /\
  snd (imitate (fun _ d _ => d) (fun M => M) fresh one_sample_demo) = Err ValueError /\
  model (fst (imitate (fun _ d _ => d) (fun M => M) fresh one_sample_demo)) = model fresh.
Proof.
  split; [simpl; lia|].
  apply (imitate_short_demo (fun _ d _ => d) (fun M => M) fresh one_sample_demo).
  simpl; lia.
Defined.

(** C5, as the documentation states it, fails: on the one-row demonstration
    the error is not [InsufficientDemonstration] (the collaborators are never
    reached, any will do). *)
Lemma imitate_one_sample_not_specific :
  snd (imitate (fun _ d _ => d) (fun M => M) fresh one_sample_demo)
  <> Err InsufficientDemonstration.
Proof.
  unfold imitate, Slerp_check; simpl.
  destruct (Req_EM_T _ 0); simpl; discriminate.
Qed.

(** C9.  The centers and widths are those computed from [N_bf], [T] and
    [alphax] at construction; [imitate] never changes them, and [rollout]
    hands back the instance unchanged (weights, [q0], [qT], boundary
    derivatives, centers and widths included). *)
Theorem basis_fixed_and_rollout_read_only :
  (forall n_bf dt0,
     match init n_bf dt0 with
     | Ok s => c s = centers n_bf 1 1 /\ h s = widths n_bf (centers n_bf 1 1) 1
     | Err _ => True
     end) /\
  (forall slerp_eval pinv s demo,
     c (fst (imitate slerp_eval pinv s demo)) = c s /\
     h (fst (imitate slerp_eval pinv s demo)) = h s) /\
  (forall tau0 s, fst (rollout tau0 s) = s).
Proof.
  split; [|split].
  - intros n_bf dt0. unfold init. destruct (Req_EM_T dt0 0); simpl; auto.
  - intros sl pv s demo. unfold imitate.
    destruct (Slerp_check demo); [simpl; auto|].
    destruct (quaternion_diff _ _); simpl; auto.
  - intros tau0 s. unfold rollout. destruct (model s); reflexivity.
Qed.

(** C6.  On a trajectory of [N >= 2] rows, [quaternion_diff] (the velocity
    [imitate] computes from the resampled trajectory) is the central
    difference [log(error(q[n+1], q[n-1])) / (2 dt)] at the interior rows and
    the one-sided differences [log(error(q[1], q[0])) / dt] and
    [log(error(q[N-1], q[N-2])) / dt] at the two ends. *)
Theorem quaternion_diff_spec (dt0 : R) (qs : list quat) :
  (2 <= length qs)%nat ->
  exists d, quaternion_diff dt0 qs = Some d /\
    length d = length qs /\
    nth 0 d vzero =
      vdiv (logarithmic_map (quaternion_error (nth 1 qs qzero) (nth 0 qs qzero))) dt0 /\
    nth (length qs - 1) d vzero =
      vdiv (logarithmic_map (quaternion_error (nth (length qs - 1) qs qzero)
                                              (nth (length qs - 2) qs qzero))) dt0 /\
    (forall n, (0 < n < length qs - 1)%nat ->
       nth n d vzero =
         vdiv (logarithmic_map (quaternion_error (nth (n + 1) qs qzero) (nth (n - 1) qs qzero)))
              (2 * dt0)).
Proof.
  intros H2. unfold quaternion_diff.
  replace (Nat.ltb (length qs) 2) with false by (symmetry; apply Nat.ltb_ge; exact H2).
  eexists; split; [reflexivity|].
  set (NN := length qs) in *.
  set (d1 := set_nth (repeat vzero NN) 0 _).
  assert (Hd1 : length d1 = NN) by (unfold d1; rewrite length_set_nth, repeat_length; reflexivity).
  set (g := fun n : nat => vdiv (logarithmic_map (quaternion_error (nth (n + 1) qs (Q4 0 0 0 0))
                                    (nth (n - 1) qs (Q4 0 0 0 0)))) (2 * dt0)).
  change (fun d n => set_nth d n (vdiv (logarithmic_map (quaternion_error (nth (n + 1) qs (Q4 0 0 0 0))
            (nth (n - 1) qs (Q4 0 0 0 0)))) (2 * dt0)))
    with (fun d n => set_nth d n (g n)).
  assert (Hk : (NN - 2 < length d1)%nat) by lia.
  pose proof (fun i => fold_set_nth g (NN - 2) d1 i vzero Hk) as Hf.
  destruct (Hf 0%nat) as [Hlen _].
  set (d2 := fold_left _ _ d1) in *.
  split; [rewrite length_set_nth; lia|].
  split; [|split].
  - rewrite nth_set_nth by lia.
    replace (Nat.eqb 0 (NN - 1)) with false by (symmetry; apply Nat.eqb_neq; lia).
    destruct (Hf 0%nat) as [_ ->]. simpl.
    unfold d1. rewrite nth_set_nth by (rewrite repeat_length; lia). reflexivity.
  - rewrite nth_set_nth by lia. rewrite Nat.eqb_refl. reflexivity.
  - intros n Hn. rewrite nth_set_nth by lia.
    replace (Nat.eqb n (NN - 1)) with false by (symmetry; apply Nat.eqb_neq; lia).
    destruct (Hf n) as [_ ->].
    replace (Nat.leb 1 n) with true by (symmetry; apply Nat.leb_le; lia).
    replace (Nat.leb n (NN - 2)) with true by (symmetry; apply Nat.leb_le; lia).
    reflexivity.
Qed.

Lemma quaternion_error_self_witness :
  qnorm (Q4 0 0 0 1) = 1 /\ quaternion_error (Q4 0 0 0 1) (Q4 0 0 0 1) = Q4 1 0 0 0.
Proof.
  assert (H : qnorm (Q4 0 0 0 1) = 1).
  { unfold qnorm; simpl. replace (0 * 0 + 0 * 0 + 0 * 0 + 1 * 1) with 1 by ring.
    apply sqrt_1. }
  split; [exact H | apply (quaternion_error_self (Q4 0 0 0 1)); exact H].
Defined.

Lemma quaternion_diff_spec_witness :
  (2 <= length two_identities)%nat /\
  exists d, quaternion_diff (/ 100) two_identities = Some d /\ length d = 2%nat.
Proof.
  split; [simpl; lia|].
  destruct (quaternion_diff_spec (/ 100) two_identities ltac:(simpl; lia))
    as [d [Hd [Hl _]]].
  exists d. split; [exact Hd | exact Hl].
Defined.

Lemma rollout_loop (s : dmp) (m : trained) (tau0 : R) (ft : list vec3) (k : nat) :
  forall qa dqa ddqa qr dqr ddqr,
  (k < length qa)%nat -> length dqa = length qa -> length ddqa = length qa ->
  fold_left (rollout_step s m tau0 ft) (seq 1 k) (qa, dqa, ddqa) = (qr, dqr, ddqr) ->
  length qr = length qa /\ length dqr = length qa /\ length ddqr = length qa /\
  (forall i, (i = 0 \/ k < i)%nat ->
     nth i qr qzero = nth i qa qzero /\ nth i dqr vzero = nth i dqa vzero /\
     nth i ddqr vzero = nth i ddqa vzero) /\
  (forall n, (1 <= n <= k)%nat -> rollout_eqs s m tau0 ft qr dqr ddqr n).
Proof.
  induction k as [|k IH]; intros qa dqa ddqa qr dqr ddqr Hk Hl1 Hl2 Hf.
  - simpl in Hf. inversion Hf; subst.
    repeat split; auto; intros; lia.
  - rewrite seq_S, fold_left_app in Hf. cbn [fold_left] in Hf.
    change (1 + k)%nat with (S k) in Hf.
    destruct (fold_left (rollout_step s m tau0 ft) (seq 1 k) (qa, dqa, ddqa))
      as [[qk dqk] ddqk] eqn:E.
    destruct (IH qa dqa ddqa qk dqk ddqk ltac:(lia) Hl1 Hl2 E)
      as [Lq [Ldq [Lddq [Frame Eqs]]]].
    unfold rollout_step in Hf. replace (S k - 1)%nat with k in Hf by lia.
    inversion Hf; subst qr dqr ddqr; clear Hf.
    repeat rewrite length_set_nth.
    split; [lia|]. split; [lia|]. split; [lia|]. split.
    + intros i Hi.
      rewrite !nth_set_nth_ne by lia. apply Frame. lia.
    + intros n Hn. unfold rollout_eqs.
      destruct (Nat.eq_dec n (S k)) as [->|Hne].
      * replace (S k - 1)%nat with k by lia.
        rewrite !nth_set_nth_eq by (rewrite ?length_set_nth; lia).
        rewrite !nth_set_nth_ne by lia.
        repeat split; reflexivity.
      * rewrite !(nth_set_nth_ne _ (S k) n) by lia.
        rewrite !(nth_set_nth_ne _ (S k) (n - 1)) by lia.
        apply Eqs. lia.
Qed.

(** C3.  On a trained instance, [rollout tau] returns three arrays of
    length [N] starting from [q0], [dq_log0], [ddq_log0] of the training, and
    for every [n] in [1 .. N-1]:
    [ddq[n] = alphaz (betaz log(error(qT, q[n-1])) - dq[n-1]) + f[n]] with [f]
    the forcing term computed at the rollout's phase schedule,
    [dq[n] = dq[n-1] + tau ddq[n-1] dt] and
    [q[n] = product(exp(tau dq[n-1] dt), q[n-1])]. *)
Theorem rollout_update_order (tau0 : R) (s : dmp) (m : trained) :
  model s = Some m -> (1 <= N s)%nat ->
  exists qr dqr ddqr,
    rollout tau0 s = (s, Ok (qr, dqr, ddqr)) /\
    length qr = N s /\ length dqr = N s /\ length ddqr = N s /\
    nth 0 qr qzero = q0 m /\ nth 0 dqr vzero = dq_log0 m /\ nth 0 ddqr vzero = ddq_log0 m /\
    (forall n, (1 <= n < N s)%nat ->
       nth n ddqr vzero =
         vadd (vscale (alphaz s)
                 (vsub (vscale (betaz s)
                          (logarithmic_map (quaternion_error (qT m) (nth (n - 1) qr qzero))))
                       (nth (n - 1) dqr vzero)))
              (nth n (rollout_forcing_term s m tau0) vzero) /\
       nth n dqr vzero =
         vadd (nth (n - 1) dqr vzero) (scale_step tau0 (nth (n - 1) ddqr vzero) (dt s)) /\
       nth n qr qzero =
         quaternion_product (exponential_map (scale_step tau0 (nth (n - 1) dqr vzero) (dt s)))
                            (nth (n - 1) qr qzero)).
Proof.
  intros Hm HN. unfold rollout. rewrite Hm.
  set (ft := rollout_forcing_term s m tau0).
  set (qa := set_nth (repeat qzero (N s)) 0 (q0 m)).
  set (dqa := set_nth (repeat vzero (N s)) 0 (dq_log0 m)).
  set (ddqa := set_nth (repeat vzero (N s)) 0 (ddq_log0 m)).
  assert (Lq : length qa = N s) by (unfold qa; rewrite length_set_nth, repeat_length; reflexivity).
  assert (Ldq : length dqa = N s) by (unfold dqa; rewrite length_set_nth, repeat_length; reflexivity).
  assert (Lddq : length ddqa = N s) by (unfold ddqa; rewrite length_set_nth, repeat_length; reflexivity).
  destruct (fold_left (rollout_step s m tau0 ft) (seq 1 (N s - 1)) (qa, dqa, ddqa))
    as [[qr dqr] ddqr] eqn:E.
  destruct (rollout_loop s m tau0 ft (N s - 1) qa dqa ddqa qr dqr ddqr
              ltac:(lia) ltac:(lia) ltac:(lia) E) as [L1 [L2 [L3 [Frame Eqs]]]].
  exists qr, dqr, ddqr.
  split; [reflexivity|].
  split; [lia|]. split; [lia|]. split; [lia|].
  destruct (Frame 0%nat ltac:(lia)) as [F1 [F2 F3]].
  split; [rewrite F1; unfold qa; apply nth_set_nth_eq; rewrite repeat_length; lia|].
  split; [rewrite F2; unfold dqa; apply nth_set_nth_eq; rewrite repeat_length; lia|].
  split; [rewrite F3; unfold ddqa; apply nth_set_nth_eq; rewrite repeat_length; lia|].
  intros n Hn. apply (Eqs n). lia.
Qed.

Lemma rollout_update_order_witness :
  exists m, model trained_small = Some m /\ (1 <= N trained_small)%nat /\
  exists qr dqr ddqr, rollout 2 trained_small = (trained_small, Ok (qr, dqr, ddqr)) /\
    length qr = 2%nat.
Proof.
  eexists. split; [reflexivity|]. split; [simpl; lia|].
  destruct (rollout_update_order 2 trained_small _ eq_refl ltac:(simpl; lia))
    as [qr [dqr [ddqr [H [Hl _]]]]].
  exists qr, dqr, ddqr. split; [exact H | exact Hl].
Defined.

(** The vector part of [exponential_map r] has norm [sin (|r| / 2)] when
    [|r| < PI]. *)
Lemma exp_map_vec_norm (r : vec3) :
  vnorm r < PI -> vnorm (qvec (exponential_map r)) = sin (vnorm r / 2).
Proof.
  intros Hpi. pose proof (vnorm_nonneg r) as Hge.
  unfold exponential_map.
  destruct (Req_EM_T (vnorm r) 0) as [H0 | H0].
  - rewrite H0. unfold qvec, vnorm; simpl.
    replace (0 * 0 + 0 * 0 + 0 * 0) with 0 by ring.
    replace (0 / 2) with 0 by field. rewrite sin_0. apply sqrt_0.
  - set (th := vnorm r) in *.
    assert (Hs : x0 r * x0 r + x1 r * x1 r + x2 r * x2 r = th * th)
      by (unfold th; rewrite vnorm_sq; reflexivity).
    assert (Hsin : 0 <= sin (th / 2)) by (apply sin_ge_0; lra).
    unfold qvec, vnorm at 1, vdiv, vscale; simpl.
    match goal with |- sqrt ?e = _ => replace e with (sin (th / 2) * sin (th / 2)) end.
    + apply sqrt_square. exact Hsin.
    + transitivity (sin (th / 2) * sin (th / 2) *
                    ((x0 r * x0 r + x1 r * x1 r + x2 r * x2 r) / (th * th))).
      * rewrite Hs. field. exact H0.
      * field. exact H0.
Qed.

Lemma eps_pos : 0 < eps.
Proof. unfold eps. apply Rinv_0_lt_compat, pow_lt. lra. Qed.

(** Below machine epsilon the logarithmic map answers the zero vector. *)
Lemma log_exp_below_eps (r : vec3) :
  vnorm r < PI -> sin (vnorm r / 2) < eps ->
  logarithmic_map (exponential_map r) = vzero.
Proof.
  intros Hpi Hs. unfold logarithmic_map at 1.
  rewrite (exp_map_vec_norm r Hpi).
  destruct (Rlt_dec (sin (vnorm r / 2)) eps); [reflexivity | contradiction].
Qed.

(** At or above machine epsilon the round trip is exact. *)
Lemma log_exp_above_eps (r : vec3) :
  vnorm r < PI -> eps <= sin (vnorm r / 2) ->
  logarithmic_map (exponential_map r) = r.
Proof.
  intros Hpi Hs. pose proof eps_pos as He. pose proof (vnorm_nonneg r) as Hge.
  unfold logarithmic_map at 1.
  rewrite (exp_map_vec_norm r Hpi).
  destruct (Rlt_dec (sin (vnorm r / 2)) eps) as [Hlt | _]; [lra|].
  set (th := vnorm r) in *.
  assert (H0 : th <> 0) by (intros E; rewrite E in Hs; replace (0 / 2) with 0 in Hs by field;
                             rewrite sin_0 in Hs; lra).
  assert (Hcos : 0 < cos (th / 2)) by (apply cos_gt_0; lra).
  assert (Hsin : 0 < sin (th / 2)) by lra.
  assert (Hat : arctan2 (sin (th / 2)) (cos (th / 2)) = th / 2).
  { unfold arctan2. destruct (Rlt_dec 0 (cos (th / 2))) as [_ | n]; [|lra].
    change (sin (th / 2) / cos (th / 2)) with (tan (th / 2)).
    apply atan_tan. split; lra. }
  unfold exponential_map. fold th.
  destruct (Req_EM_T th 0) as [E | _]; [contradiction|].
  unfold qvec, vdiv, vscale; simpl e0; simpl e1; simpl e2; simpl e3.
  rewrite Hat. destruct r as [a b d]. unfold th in *. simpl in *.
  f_equal; field; (split; [assumption | apply Rgt_not_eq; assumption]).
Qed.

(** C8, as stated, fails in exact arithmetic: for the tiny rotation vector
    [(2^-60, 0, 0)] the vector part of its exponential is below machine
    epsilon and the logarithmic map answers the zero vector. *)
Lemma log_exp_tiny_counterexample :
  ~ (forall r, vnorm r < PI -> logarithmic_map (exponential_map r) = r).
Proof.
  intros Hall.
  set (a := / 2 ^ 60).
  assert (Ha : 0 < a) by (unfold a; apply Rinv_0_lt_compat, pow_lt; lra).
  assert (Ha1 : a < 1) by (unfold a; rewrite <- Rinv_1; apply Rinv_lt_contravar;
                           [apply Rmult_lt_0_compat; [lra | apply pow_lt; lra] |
                            apply Rlt_pow_R1; [lra | lia]]).
  assert (Hn : vnorm (V3 a 0 0) = a).
  { unfold vnorm; simpl. replace (a * a + 0 * 0 + 0 * 0) with (a * a) by ring.
    apply sqrt_square. lra. }
  pose proof PI2_3_2 as Hpi.
  assert (Hlt : vnorm (V3 a 0 0) < PI) by lra.
  assert (Hsmall : sin (vnorm (V3 a 0 0) / 2) < eps).
  { rewrite Hn. apply Rlt_trans with (a / 2).
    - apply sin_lt_x. lra.
    - unfold a, eps, Rdiv. rewrite <- Rinv_mult, (Rmult_comm (2 ^ 60) 2).
      change (2 * 2 ^ 60) with (2 ^ 61).
      apply Rinv_lt_contravar.
      + apply Rmult_lt_0_compat; apply pow_lt; lra.
      + apply Rlt_pow; [lra | lia]. }
  specialize (Hall (V3 a 0 0) Hlt).
  rewrite (log_exp_below_eps (V3 a 0 0) Hlt Hsmall) in Hall.
  unfold vzero in Hall. injection Hall; intros; lra.
Qed.

(** C8, as the code does it.  For [|r| < PI] the round trip
    [logarithmic_map (exponential_map r)] gives back [r] exactly when
    [sin (|r| / 2)] is at least machine epsilon, and the zero vector when it
    is below (the zero vector itself included). *)
Theorem log_exp_roundtrip (r : vec3) :
  vnorm r < PI ->
  (eps <= sin (vnorm r / 2) -> logarithmic_map (exponential_map r) = r) /\
  (sin (vnorm r / 2) < eps -> logarithmic_map (exponential_map r) = vzero).
Proof.
  intros Hpi. split.
  - apply log_exp_above_eps, Hpi.
  - apply log_exp_below_eps, Hpi.
Qed.

Lemma log_exp_roundtrip_witness :
  vnorm vzero < PI /\
  (eps <= sin (vnorm vzero / 2) -> logarithmic_map (exponential_map vzero) = vzero) /\
  (sin (vnorm vzero / 2) < eps -> logarithmic_map (exponential_map vzero) = vzero).
Proof.
  assert (H : vnorm vzero < PI).
  { unfold vnorm, vzero; simpl. replace (0 * 0 + 0 * 0 + 0 * 0) with 0 by ring.
    rewrite sqrt_0. apply PI_RGT_0. }
  split; [exact H | apply (log_exp_roundtrip vzero); exact H].
Defined.

Lemma init_config2 : init 2 (/ 2) = Ok config2.
Proof.
  unfold init. destruct (Req_EM_T (/ 2) 0) as [E | _]; [lra|].
  replace (1 / / 2) with 2 by field.
  unfold py_int. destruct (Rle_dec 0 2) as [_ | n]; [|lra].
  replace (Int_part 2) with 2%Z by (apply Int_part_spec; lra).
  reflexivity.
Qed.

Lemma init_fresh : init 20 (/ 100) = Ok fresh.
Proof.
  unfold init. destruct (Req_EM_T (/ 100) 0) as [E | _]; [lra|].
  replace (1 / / 100) with 100 by field.
  unfold py_int. destruct (Rle_dec 0 100) as [_ | n]; [|lra].
  replace (Int_part 100) with 100%Z by (apply Int_part_spec; lra).
  reflexivity.
Qed.

(** Two normalised two-basis averages with different basis ratios differ as
    soon as the two weights differ. *)
Lemma two_basis_average_ne (E0 E1 F0 F1 p w0 w1 : R) :
  0 < E0 -> 0 < E1 -> 0 < F0 -> 0 < F1 -> 0 < p -> w0 <> w1 ->
  E0 * F1 <> F0 * E1 ->
  (E0 * w0 + (E1 * w1 + 0)) * p / (E0 + (E1 + 0)) <>
  (F0 * w0 + (F1 * w1 + 0)) * p / (F0 + (F1 + 0)).
Proof.
  intros H0 H1 H2 H3 Hp Hw Hr Heq.
  assert (Hx : (E0 * w0 + E1 * w1) * (F0 + F1) = (F0 * w0 + F1 * w1) * (E0 + E1)).
  { apply (Rmult_eq_reg_r (p / ((E0 + E1) * (F0 + F1)))).
    - replace (E0 * w0 + (E1 * w1 + 0)) with (E0 * w0 + E1 * w1) in Heq by ring.
      replace (F0 * w0 + (F1 * w1 + 0)) with (F0 * w0 + F1 * w1) in Heq by ring.
      replace (E0 + (E1 + 0)) with (E0 + E1) in Heq by ring.
      replace (F0 + (F1 + 0)) with (F0 + F1) in Heq by ring.
      transitivity ((E0 * w0 + E1 * w1) * p / (E0 + E1)); [field; lra|].
      rewrite Heq. field; lra.
    - apply Rgt_not_eq. apply Rdiv_lt_0_compat; [lra | nra]. }
  assert (Hz : (E0 * F1 - F0 * E1) * (w0 - w1) = 0) by nra.
  apply Rmult_integral in Hz. destruct Hz as [Hz | Hz]; [apply Hr | apply Hw]; lra.
Qed.

(** C2 (code defect).  [forcing_function_approx] builds its basis with
    [RBF()], which reads the training schedule [self.phase], and uses the
    rescaled schedule only as the multiplier.  With two basis functions,
    two samples and [tau = 2], the forcing term [rollout] computes at step 1
    differs from the documented construction (basis at the rescaled phase)
    as soon as the two weights of the column differ. *)
Theorem forcing_term_basis_at_training_phase (m : trained) (w0 w1 : vec3) :
  phase m = map (fun x => exp (- alphax config2 * x)) (linspace 0 (T config2) (N config2)) ->
  weights m = [w0; w1] -> x0 w0 <> x0 w1 ->
  let s := set_model config2 (Some m) in
  x0 (nth 1 (rollout_forcing_term s m 2) vzero) <>
  nth 1 (forcing_function_spec s (map (col 0) (weights m))
          (map (fun x => exp (- alphax s * 2 * x)) (linspace 0 (T s) (N s)))) 0.
Proof.
  intros Hp Hw Hne s.
  unfold s, rollout_forcing_term, forcing_function_spec, forcing_function_approx,
    RBF, RBF_at, of_columns.
  rewrite Hw, Hp. simpl.
  replace (0 + 0 * ((1 - 0) / 1)) with 0 by field.
  replace (0 + 1 * ((1 - 0) / 1)) with 1 by field.
  replace (- (1) * 0) with 0 by ring. rewrite exp_0.
  replace (- (1) * 2 * 1) with (-1 + -1) by ring. rewrite exp_plus.
  replace (- (1) * 1) with (-1) by ring.
  set (a := exp (-1)). set (K := Rpower (1 + 1) 1.5).
  assert (Ha : 0 < a) by apply exp_pos.
  assert (Ha1 : a < 1) by (unfold a; rewrite <- exp_0; apply exp_increasing; lra).
  assert (HK : 0 < K) by (unfold K, Rpower; apply exp_pos).
  apply two_basis_average_ne; try apply exp_pos; [nra | exact Hne |].
  rewrite <- !exp_plus. intros He. apply exp_inv in He.
  replace (1 * K / 1 / 1) with K in He by field.
  assert (Hpos : 0 < K * a * (1 + a) * ((a - 1) * (a - 1))).
  { apply Rmult_lt_0_compat; [nra|]. nra. }
  apply Rminus_diag_eq in He.
  assert (Hz : K * a * (1 + a) * ((a - 1) * (a - 1)) = 0) by (rewrite <- He; field; lra).
  lra.
Qed.

Lemma forcing_term_basis_at_training_phase_witness :
  let m := Trained [] [] (Q4 1 0 0 0) vzero vzero (Q4 1 0 0 0)
             (map (fun x => exp (- alphax config2 * x)) (linspace 0 (T config2) (N config2)))
             [V3 1 0 0; V3 0 0 0] in
  x0 (V3 1 0 0) <> x0 (V3 0 0 0) /\
  let s := set_model config2 (Some m) in
  x0 (nth 1 (rollout_forcing_term s m 2) vzero) <>
  nth 1 (forcing_function_spec s (map (col 0) (weights m))
          (map (fun x => exp (- alphax s * 2 * x)) (linspace 0 (T s) (N s)))) 0.
Proof.
  intros m. split; [simpl; lra|].
  apply (forcing_term_basis_at_training_phase m (V3 1 0 0) (V3 0 0 0));
    [reflexivity | reflexivity | simpl; lra].
Defined.

(** * Further properties of the quaternion algebra and the rollout *)

(** Helper facts shared by the statements below. *)

Lemma qnorm_sq (q : quat) :
  qnorm q * qnorm q = e0 q * e0 q + e1 q * e1 q + e2 q * e2 q + e3 q * e3 q.
Proof. unfold qnorm. apply sqrt_sqrt. nra. Qed.

Lemma qnorm_product_helper (p r : quat) :
  qnorm (quaternion_product p r) = qnorm p * qnorm r.
Proof.
  destruct p as [a b d e], r as [a' b' d' e'].
  unfold qnorm, quaternion_product, vdot, vadd, vscale, vcross, qvec; simpl.
  rewrite <- sqrt_mult by nra.
  f_equal. ring.
Qed.


Lemma log_conjugate_helper (q : quat) :
  logarithmic_map (quaternion_conjugate q) = vscale (-1) (logarithmic_map q).
Proof.
  destruct q as [a b d e].
  assert (Hn : vnorm (qvec (quaternion_conjugate (Q4 a b d e))) = vnorm (qvec (Q4 a b d e))).
  { unfold vnorm, qvec, quaternion_conjugate; simpl. f_equal. ring. }
  unfold logarithmic_map. rewrite Hn.
  destruct (Rlt_dec (vnorm (qvec (Q4 a b d e))) eps).
  - unfold vzero, vscale; simpl. f_equal; ring.
  - unfold quaternion_conjugate, vscale, vdiv, qvec; simpl.
    replace (a * 1) with a by ring. f_equal; unfold Rdiv; ring.
Qed.

Lemma error_swap_helper (q1 q2 : quat) :
  quaternion_error q2 q1 = quaternion_conjugate (quaternion_error q1 q2).
Proof.
  destruct q1, q2.
  unfold quaternion_error, quaternion_product, quaternion_conjugate, vdot, vadd,
    vscale, vcross, qvec; simpl. f_equal; ring.
Qed.

(** The identity [(1, 0, 0, 0)] of the scalar-first algebra is a two-sided
    unit of [quaternion_product]. *)
Theorem quaternion_product_identity (q : quat) :
  quaternion_product (Q4 1 0 0 0) q = q /\ quaternion_product q (Q4 1 0 0 0) = q.
Proof.
  destruct q as [a b d e].
  unfold quaternion_product, vdot, vadd, vscale, vcross, qvec; simpl.
  split; f_equal; ring.
Qed.

(** [quaternion_product] is associative (it is the Hamilton product). *)
Theorem quaternion_product_assoc (p q r : quat) :
  quaternion_product p (quaternion_product q r) =
  quaternion_product (quaternion_product p q) r.
Proof.
  destruct p, q, r.
  unfold quaternion_product, vdot, vadd, vscale, vcross, qvec; simpl.
  f_equal; ring.
Qed.

(** The norm is multiplicative: [|p * r| = |p| |r|]; in particular the
    product of two unit quaternions is a unit quaternion. *)
Theorem quaternion_product_norm (p r : quat) :
  qnorm (quaternion_product p r) = qnorm p * qnorm r.
Proof. apply qnorm_product_helper. Qed.

(** Conjugation is an involution and reverses products. *)
Theorem quaternion_conjugate_involutive_antimorphism (p r : quat) :
  quaternion_conjugate (quaternion_conjugate p) = p /\
  quaternion_conjugate (quaternion_product p r) =
  quaternion_product (quaternion_conjugate r) (quaternion_conjugate p).
Proof.
  destruct p, r.
  unfold quaternion_conjugate, quaternion_product, vdot, vadd, vscale, vcross, qvec; simpl.
  split; f_equal; ring.
Qed.

(** Multiplying the error [error(q1, q2)] back by a unit [q2] recovers [q1]. *)
Theorem quaternion_error_recovers (q1 q2 : quat) :
  qnorm q2 = 1 -> quaternion_product (quaternion_error q1 q2) q2 = q1.
Proof.
  intros Hn. pose proof (qnorm_sq q2) as Hs. rewrite Hn in Hs.
  destruct q1 as [a b d e], q2 as [a' b' d' e']. simpl in Hs.
  unfold quaternion_error, quaternion_product, quaternion_conjugate, vdot, vadd,
    vscale, vcross, qvec; simpl.
  f_equal;
    [transitivity (a * (1 * 1)) | transitivity (b * (1 * 1)) |
     transitivity (d * (1 * 1)) | transitivity (e * (1 * 1))];
    first [rewrite Hs; ring | ring].
Qed.

Lemma quaternion_error_recovers_witness :
  qnorm (Q4 1 0 0 0) = 1 /\
  quaternion_product (quaternion_error (Q4 0 1 0 0) (Q4 1 0 0 0)) (Q4 1 0 0 0) = Q4 0 1 0 0.
Proof.
  assert (H : qnorm (Q4 1 0 0 0) = 1).
  { unfold qnorm; simpl. replace (1 * 1 + 0 * 0 + 0 * 0 + 0 * 0) with 1 by ring.
    apply sqrt_1. }
  split; [exact H | apply (quaternion_error_recovers (Q4 0 1 0 0) (Q4 1 0 0 0)); exact H].
Defined.

(** The exponential of [-r] is the conjugate of the exponential of [r]. *)
Theorem exponential_map_neg (r : vec3) :
  exponential_map (vscale (-1) r) = quaternion_conjugate (exponential_map r).
Proof.
  assert (Hn : vnorm (vscale (-1) r) = vnorm r).
  { unfold vnorm, vscale; simpl. f_equal. ring. }
  unfold exponential_map. rewrite Hn.
  destruct (Req_EM_T (vnorm r) 0).
  - unfold quaternion_conjugate; simpl. f_equal; ring.
  - unfold quaternion_conjugate, vscale, vdiv; simpl. f_equal; field; assumption.
Qed.

(** The logarithm of a conjugate is the negated logarithm. *)
Theorem logarithmic_map_conjugate (q : quat) :
  logarithmic_map (quaternion_conjugate q) = vscale (-1) (logarithmic_map q).
Proof. apply log_conjugate_helper. Qed.

(** Swapping the two quaternions of an error conjugates it, so the tangent
    vector [log(error(q2, q1))] is the negation of [log(error(q1, q2))]: the
    one-sided differences of [quaternion_diff] are antisymmetric. *)
Theorem log_error_antisymmetric (q1 q2 : quat) :
  quaternion_error q2 q1 = quaternion_conjugate (quaternion_error q1 q2) /\
  logarithmic_map (quaternion_error q2 q1) =
  vscale (-1) (logarithmic_map (quaternion_error q1 q2)).
Proof.
  split; [apply error_swap_helper|].
  rewrite error_swap_helper. apply log_conjugate_helper.
Qed.



(** * Further properties of [imitate] and [__init__] *)








Lemma length_linspace a b n : length (linspace a b n) = n.
Proof.
  destruct n as [|[|k]]; [reflexivity | reflexivity |].
  change (linspace a b (S (S k))) with
    (map (fun i => a + INR i * ((b - a) / INR (S (S k) - 1))) (seq 0 (S (S k)))).
  rewrite length_map, length_seq. reflexivity.
Qed.

Lemma linspace_in a b n x : a <= b -> In x (linspace a b n) -> a <= x <= b.
Proof.
  intros Hab Hx. destruct n as [|[|k]].
  - destruct Hx.
  - destruct Hx as [<-|[]]. lra.
  - change (linspace a b (S (S k))) with
      (map (fun i => a + INR i * ((b - a) / INR (S (S k) - 1))) (seq 0 (S (S k)))) in Hx.
    apply in_map_iff in Hx. destruct Hx as [i [<- Hi]]. apply in_seq in Hi.
    replace (S (S k) - 1)%nat with (S k) by lia.
    assert (HD : 0 < INR (S k)) by (apply lt_0_INR; lia).
    assert (Hi' : INR i <= INR (S k)) by (apply le_INR; lia).
    assert (H0 : 0 <= INR i) by apply pos_INR.
    replace (INR i * ((b - a) / INR (S k))) with ((b - a) * (INR i / INR (S k)))
      by (field; lra).
    assert (Hr : 0 <= INR i / INR (S k) <= 1).
    { split.
      - apply Rle_mult_inv_pos; lra.
      - apply (Rmult_le_reg_r (INR (S k))); [lra|].
        unfold Rdiv. rewrite Rmult_assoc, Rinv_l by lra. lra. }
    split.
    + assert (0 <= (b - a) * (INR i / INR (S k))) by (apply Rmult_le_pos; lra). lra.
    + assert ((b - a) * (INR i / INR (S k)) <= (b - a) * 1)
        by (apply Rmult_le_compat_l; lra). lra.
Qed.

Lemma length_zip_with {A B C} (f : A -> B -> C) l1 l2 :
  length (zip_with f l1 l2) = Nat.min (length l1) (length l2).
Proof.
  revert l2; induction l1 as [|a t IH]; intros [|b t2]; simpl; auto.
Qed.

Lemma in_zip_with {A B C} (f : A -> B -> C) l1 l2 x :
  In x (zip_with f l1 l2) -> exists a b, In a l1 /\ In b l2 /\ x = f a b.
Proof.
  revert l2; induction l1 as [|a t IH]; intros [|b t2] Hx; simpl in Hx; try tauto.
  destruct Hx as [<-|Hx].
  - exists a, b. simpl. auto.
  - destruct (IH t2 Hx) as [a' [b' [H1 [H2 H3]]]]. exists a', b'. simpl. auto.
Qed.

Lemma rsum_repeat_weight row w :
  rsum (zip_with Rmult row (repeat w (length row))) = w * rsum row.
Proof.
  induction row as [|x t IH]; simpl; [ring|]. unfold rsum in *; simpl. rewrite IH. ring.
Qed.

Lemma rsum_pos row : row <> [] -> (forall x, In x row -> 0 < x) -> 0 < rsum row.
Proof.
  induction row as [|x t IH]; intros Hne Hp; [congruence|].
  unfold rsum; simpl. fold (rsum t).
  assert (Hx : 0 < x) by (apply Hp; simpl; auto).
  destruct t as [|y t'].
  - unfold rsum; simpl. lra.
  - assert (0 < rsum (y :: t')) by (apply IH; [congruence | intros z Hz; apply Hp; simpl; auto]).
    lra.
Qed.

Lemma py_int_nonneg r : 0 <= r -> INR (Z.to_nat (py_int r)) <= r < INR (Z.to_nat (py_int r)) + 1.
Proof.
  intros Hr. unfold py_int. destruct (Rle_dec 0 r) as [_|Hn]; [|lra].
  destruct (base_Int_part r) as [H1 H2].
  assert (Hz : (0 <= Int_part r)%Z).
  { assert (Hgt : (-1 < Int_part r)%Z) by (apply lt_IZR; lra). lia. }
  rewrite INR_IZR_INZ, Z2Nat.id by exact Hz. lra.
Qed.

Lemma init_fields N_bf0 dt0 s :
  init N_bf0 dt0 = Ok s ->
  dt0 <> 0 /\ T s = 1 /\ dt s = dt0 /\ N s = Z.to_nat (py_int (1 / dt0)) /\ alphax s = 1 /\
  N_bf s = N_bf0 /\ c s = centers N_bf0 1 1 /\ h s = widths N_bf0 (centers N_bf0 1 1) 1 /\
  q s = None /\ model s = None.
Proof.
  unfold init. destruct (Req_EM_T dt0 0) as [|Hd]; [discriminate|].
  intros He. injection He as <-. simpl. repeat split; auto.
Qed.

(** [__init__] with a positive time step: it succeeds, [N = int(1/dt)] is the
    number of whole steps of length [dt] in the unit horizon, there is one
    center and one width per basis function, and the instance is not trained
    yet. *)
Theorem init_positive_dt N_bf0 dt0 :
  0 < dt0 ->
  exists s, init N_bf0 dt0 = Ok s /\
    INR (N s) <= 1 / dt0 < INR (N s) + 1 /\
    dt s = dt0 /\ N_bf s = N_bf0 /\
    length (c s) = N_bf0 /\ length (h s) = N_bf0 /\
    q s = None /\ model s = None.
Proof.
  intros Hd. unfold init. destruct (Req_EM_T dt0 0) as [|_]; [lra|].
  eexists. split; [reflexivity|]. simpl.
  assert (Hr : 0 <= 1 / dt0) by (unfold Rdiv; rewrite Rmult_1_l; left; apply Rinv_0_lt_compat, Hd).
  pose proof (py_int_nonneg (1 / dt0) Hr) as HN.
  unfold widths, centers. rewrite !length_map, length_linspace.
  repeat split; try reflexivity; lra.
Qed.

Lemma init_positive_dt_witness :
  0 < / 100 /\ exists s, init 20 (/ 100) = Ok s /\ INR (N s) <= 1 / (/ 100) < INR (N s) + 1.
Proof.
  split; [lra|].
  destruct (init_positive_dt 20 (/ 100) ltac:(lra)) as [s [H1 [H2 _]]].
  exists s. split; assumption.
Defined.

Lemma basis_of_init N_bf0 dt0 s :
  init N_bf0 dt0 = Ok s ->
  (forall ci, In ci (c s) -> exp (-1) <= ci <= 1) /\
  (forall hi, In hi (h s) -> 0 < hi).
Proof.
  intros Hi. destruct (init_fields N_bf0 dt0 s Hi) as (_ & _ & _ & _ & _ & _ & Hc & Hh & _).
  assert (Hcb : forall ci, In ci (centers N_bf0 1 1) -> exp (-1) <= ci <= 1).
  { intros ci Hci. unfold centers in Hci. apply in_map_iff in Hci.
    destruct Hci as [x [<- Hx]]. apply linspace_in in Hx; [|lra].
    pose proof exp_0 as E0. split.
    - destruct (Req_dec x 1) as [->|Hne].
      + replace (- (1) * 1) with (-1) by ring. lra.
      + left. apply exp_increasing. lra.
    - destruct (Req_dec x 0) as [->|Hne].
      + replace (- (1) * 0) with 0 by ring. lra.
      + left. rewrite <- E0 at 2. apply exp_increasing. lra. }
  split.
  - rewrite Hc. exact Hcb.
  - rewrite Hh. intros hi Hhi. unfold widths in Hhi. apply in_map_iff in Hhi.
    destruct Hhi as [ci [<- Hci]].
    assert (Hc0 : 0 < ci) by (unfold centers in Hci; apply in_map_iff in Hci;
                              destruct Hci as [x [<- _]]; apply exp_pos).
    unfold Rpower. unfold Rdiv.
    apply Rmult_lt_0_compat; [|lra].
    apply Rmult_lt_0_compat; [| apply Rinv_0_lt_compat; exact Hc0].
    rewrite Rmult_1_l. apply exp_pos.
Qed.

(** The basis built by [__init__]: the centers [exp(-alphax * c_)] lie in
    [[exp(-1), 1]] and every width [N_bf**1.5 / c / alphax] is positive. *)
Theorem init_basis N_bf0 dt0 s :
  init N_bf0 dt0 = Ok s ->
  (forall ci, In ci (c s) -> exp (-1) <= ci <= 1) /\
  (forall hi, In hi (h s) -> 0 < hi).
Proof. exact (basis_of_init N_bf0 dt0 s). Qed.

Lemma init_basis_witness :
  init 20 (/ 100) = Ok fresh /\ (forall hi, In hi (h fresh) -> 0 < hi).
Proof.
  split; [exact init_fresh|]. exact (proj2 (init_basis 20 (/ 100) fresh init_fresh)).
Defined.

Lemma rbf_of_init N_bf0 dt0 s m :
  init N_bf0 dt0 = Ok s ->
  length (RBF s m) = length (phase m) /\
  forall row, In row (RBF s m) ->
    length row = N_bf0 /\ forall x, In x row -> 0 < x <= 1.
Proof.
  intros Hi. destruct (basis_of_init N_bf0 dt0 s Hi) as [_ Hh].
  destruct (init_fields N_bf0 dt0 s Hi) as (_ & _ & _ & _ & _ & _ & Hc & Hw & _).
  split; [unfold RBF; apply length_map|].
  intros row Hrow. unfold RBF in Hrow. apply in_map_iff in Hrow.
  destruct Hrow as [p [<- _]]. split.
  - rewrite length_zip_with, Hw, Hc. unfold widths, centers.
    rewrite !length_map, length_linspace. apply Nat.min_id.
  - intros x Hx. apply in_zip_with in Hx. destruct Hx as [hi [ci [Hhi [_ ->]]]].
    split; [apply exp_pos|].
    assert (Hp : 0 < hi) by (apply Hh; exact Hhi).
    assert (Hs : 0 <= (p - ci) ^ 2) by (rewrite <- Rsqr_pow2; apply Rle_0_sqr).
    rewrite <- exp_0.
    destruct (Rle_lt_or_eq_dec _ _ Hs) as [Hlt|Heq].
    + left. apply exp_increasing. nra.
    + rewrite <- Heq. right. f_equal. ring.
Qed.

(** On an instance built by [__init__], [RBF()] has one row per stored phase
    sample and one column per basis function, and every activation lies in
    [(0, 1]]. *)
Theorem RBF_bounds N_bf0 dt0 s m :
  init N_bf0 dt0 = Ok s ->
  length (RBF s m) = length (phase m) /\
  forall row, In row (RBF s m) ->
    length row = N_bf0 /\ forall x, In x row -> 0 < x <= 1.
Proof. exact (rbf_of_init N_bf0 dt0 s m). Qed.

Lemma RBF_bounds_witness :
  init 2 (/ 2) = Ok config2 /\
  length (RBF config2 (Trained [] [] qzero vzero vzero qzero [1; exp (-1)] [])) = 2%nat.
Proof.
  split; [exact init_config2|].
  exact (proj1 (RBF_bounds 2 (/ 2) config2 _ init_config2)).
Defined.

(** The normalisation of [forcing_function_approx]: on an instance built by
    [__init__] with at least one basis function, weights all equal to [w]
    give the forcing term [w * phase], whatever the stored phase; the
    weighted average of the activations is [w]. *)
Theorem forcing_equal_weights N_bf0 dt0 s m (w : R) (ph : list R) :
  init N_bf0 dt0 = Ok s -> (1 <= N_bf0)%nat ->
  forcing_function_approx s m (repeat w N_bf0) ph =
    zip_with (fun _ p => w * p) (phase m) ph.
Proof.
  intros Hi Hn. destruct (rbf_of_init N_bf0 dt0 s m Hi) as [_ Hrows].
  unfold forcing_function_approx.
  assert (Hgen : forall rows (phs ph' : list R),
            (forall row, In row rows -> length row = N_bf0 /\ forall x, In x row -> 0 < x <= 1) ->
            length rows = length phs ->
            zip_with (fun row p => rsum (zip_with Rmult row (repeat w N_bf0)) * p / rsum row)
                     rows ph' =
            zip_with (fun (_ : R) p => w * p) phs ph').
  { induction rows as [|row t IH]; intros phs ph' Hr Hlen; destruct phs as [|p0 pt];
      simpl in Hlen; try discriminate; [reflexivity|].
    destruct ph' as [|p ph']; [reflexivity|]. simpl.
    destruct (Hr row (or_introl eq_refl)) as [Hl Hb].
    f_equal.
    - rewrite <- Hl, rsum_repeat_weight.
      assert (0 < rsum row).
      { apply rsum_pos.
        - intros E. rewrite E in Hl. simpl in Hl. lia.
        - intros x Hx. apply Hb, Hx. }
      field. lra.
    - apply IH; [intros r Hr'; apply Hr; simpl; auto | lia]. }
  apply Hgen; [exact Hrows | unfold RBF; apply length_map].
Qed.

Lemma forcing_equal_weights_witness :
  init 2 (/ 2) = Ok config2 /\ (1 <= 2)%nat /\
  forcing_function_approx config2 (Trained [] [] qzero vzero vzero qzero [1; exp (-1)] [])
    (repeat 3 2) [1; exp (-1)] = [3 * 1; 3 * exp (-1)].
Proof.
  split; [exact init_config2|]. split; [lia|].
  exact (forcing_equal_weights 2 (/ 2) config2
           (Trained [] [] qzero vzero vzero qzero [1; exp (-1)] []) 3 [1; exp (-1)]
           init_config2 ltac:(lia)).
Defined.

(** The half angle [arctan2(|v|, s)] of a unit quaternion with a non-zero
    vector part: positive, with cosine [s] and sine [|v|]. *)
Lemma arctan2_unit (v s : R) :
  0 < v -> s * s + v * v = 1 ->
  0 < arctan2 v s /\ cos (arctan2 v s) = s /\ sin (arctan2 v s) = v.
Proof.
  intros Hv Hu.
  assert (Hsq : forall s', s' <> 0 -> s' * s' + v * v = 1 ->
                  sqrt (1 + (v / s')²) = Rabs (/ s')).
  { intros s' Hs' Hu'. rewrite <- sqrt_Rsqr_abs. f_equal. unfold Rsqr.
    replace (v / s' * (v / s')) with (v * v / (s' * s')) by (field; auto).
    replace (v * v) with (1 - s' * s') by lra. field. auto. }
  unfold arctan2. destruct (Rlt_dec 0 s) as [Hs|Hs].
  - pose proof (Hsq s ltac:(lra) Hu) as E.
    rewrite Rabs_right in E by (left; apply Rinv_0_lt_compat, Hs).
    rewrite sin_atan, cos_atan, E. repeat split.
    + rewrite <- atan_0. apply atan_increasing.
      unfold Rdiv. apply Rmult_lt_0_compat; [exact Hv | apply Rinv_0_lt_compat, Hs].
    + field. lra.
    + field. lra.
  - destruct (Rlt_dec s 0) as [Hs'|Hs'].
    + destruct (Rle_dec 0 v) as [_|Hn]; [|lra].
      pose proof (Hsq s ltac:(lra) Hu) as E.
      rewrite Rabs_left in E by (apply Rinv_lt_0_compat, Hs').
      rewrite neg_sin, neg_cos, sin_atan, cos_atan, E. repeat split.
      * destruct (atan_bound (v / s)). pose proof PI_RGT_0. lra.
      * field. lra.
      * field. lra.
    + assert (s = 0) by lra. subst s.
      destruct (Rlt_dec 0 v) as [_|Hn]; [|lra].
      assert (v = 1) by nra. subst v.
      rewrite sin_PI2, cos_PI2. split; [|split; reflexivity].
      pose proof PI_RGT_0. lra.
Qed.

(** The exponential map inverts the logarithmic map on unit quaternions
    whose vector part has norm at least machine epsilon (below it
    [logarithmic_map] answers the zero vector and [exponential_map] the
    identity). *)
Theorem exp_log_roundtrip (q : quat) :
  qnorm q = 1 -> eps <= vnorm (qvec q) ->
  exponential_map (logarithmic_map q) = q.
Proof.
  intros Hq He. pose proof eps_pos as Hep.
  set (v := vnorm (qvec q)) in *.
  assert (Hv : 0 < v) by lra.
  assert (Hvv : v * v = e1 q * e1 q + e2 q * e2 q + e3 q * e3 q) by (apply vnorm_sq).
  assert (Hu : e0 q * e0 q + v * v = 1).
  { pose proof (qnorm_sq q) as Hn. rewrite Hq in Hn. lra. }
  destruct (arctan2_unit v (e0 q) Hv Hu) as (Ha & Hc & Hs).
  set (a := arctan2 v (e0 q)) in *.
  unfold logarithmic_map. fold v. destruct (Rlt_dec v eps) as [Hlt|_]; [lra|].
  fold a.
  set (L := vscale (2 * a) (vdiv (qvec q) v)).
  assert (HL : vnorm L = 2 * a).
  { unfold L, vnorm, vscale, vdiv, qvec; simpl.
    transitivity (sqrt (Rsqr (2 * a))); [|apply sqrt_Rsqr; lra]. f_equal. unfold Rsqr.
    transitivity ((2 * a) * (2 * a) * ((e1 q * e1 q + e2 q * e2 q + e3 q * e3 q) / (v * v))).
    - field. lra.
    - rewrite <- Hvv. field. lra. }
  unfold exponential_map. rewrite HL.
  destruct (Req_EM_T (2 * a) 0) as [E|_]; [lra|].
  replace (2 * a / 2) with a by field. rewrite Hc, Hs.
  destruct q as [q0 q1 q2 q3]. unfold L, vscale, vdiv, qvec in *; simpl in *.
  f_equal; field; lra.
Qed.

Lemma exp_log_roundtrip_witness :
  qnorm (Q4 0 1 0 0) = 1 /\ eps <= vnorm (qvec (Q4 0 1 0 0)) /\
  exponential_map (logarithmic_map (Q4 0 1 0 0)) = Q4 0 1 0 0.
Proof.
  assert (H1 : qnorm (Q4 0 1 0 0) = 1).
  { unfold qnorm; simpl. replace (0 * 0 + 1 * 1 + 0 * 0 + 0 * 0) with 1 by ring. apply sqrt_1. }
  assert (H2 : eps <= vnorm (qvec (Q4 0 1 0 0))).
  { unfold vnorm, qvec; simpl. replace (1 * 1 + 0 * 0 + 0 * 0) with 1 by ring.
    rewrite sqrt_1. unfold eps. rewrite <- Rinv_1. apply Rinv_le_contravar; [lra|].
    apply pow_R1_Rle. lra. }
  split; [exact H1|]. split; [exact H2|].
  exact (exp_log_roundtrip (Q4 0 1 0 0) H1 H2).
Defined.

(** ** A demonstration at rest *)





Lemma last_repeat_cases {A} (x d : A) n : last (repeat x n) d = x \/ last (repeat x n) d = d.
Proof.
  induction n as [|n IH]; [right; reflexivity|].
  destruct n as [|n]; [left; reflexivity|]. exact IH.
Qed.















